(** * Indonesian Film Monitoring Dashboard: the data engine of [app.py]

    A shallow embedding of the data pipeline of the dashboard: the
    cleaning step [load_and_clean_data], the year-range filter
    [df_filtered], the KPI tiles, the aggregate tables behind the tabs
    ([yearly_counts], [peak_year], [genre_counts], [genre_leader],
    [rating_dist]) and the registry explorer.

    A data frame is the list of its rows.  A cell that pandas holds as
    NaN is [None].  Numbers of the [year] and [runtime_min] columns are
    modelled at their integer values ([Z]); percentages and means are
    rationals ([Q]).  Text is modelled over 8-bit characters. *)

From Stdlib Require Import List ZArith QArith Bool Arith Lia.
From Stdlib Require Import Ascii String Sorted Permutation.
From Stdlib Require OrderedTypeEx.
Import ListNotations.

Open Scope string_scope.
Open Scope Z_scope.
Open Scope list_scope.

(** ** Outcomes of fallible library calls *)

Inductive exn : Type :=
| ValueError
| IndexError
| KeyError.

Inductive outcome (A : Type) : Type :=
| Ok (a : A)
| Raise (e : exn).

Arguments Ok {A} a.
Arguments Raise {A} e.

Definition bind {A B : Type} (m : outcome A) (k : A -> outcome B) : outcome B :=
  match m with
  | Ok a => k a
  | Raise e => Raise e
  end.

Notation "x <- m ;; k" := (bind m (fun x => k))
  (at level 61, m at next level, right associativity).

Definition raises {A : Type} (m : outcome A) : Prop :=
  exists e, m = Raise e.

(** ** Text *)

Module Text.

Definition is_digit (c : ascii) : bool :=
  let n := nat_of_ascii c in (48 <=? n)%nat && (n <=? 57)%nat.

Definition digit_val (c : ascii) : Z := Z.of_nat (nat_of_ascii c) - 48.

(** The value of a string of decimal digits, as [float] reads it. *)
Fixpoint digits_value_from (acc : Z) (s : string) : Z :=
  match s with
  | EmptyString => acc
  | String c t => digits_value_from (10 * acc + digit_val c) t
  end.

Definition digits_value (s : string) : Z := digits_value_from 0 s.

Fixpoint all_digits (s : string) : bool :=
  match s with
  | EmptyString => true
  | String c t => is_digit c && all_digits t
  end.



(** The greedy [\d+] once its first digit has been found. *)
Fixpoint take_digits (s : string) : string :=
  match s with
  | EmptyString => EmptyString
  | String c t => if is_digit c then String c (take_digits t) else EmptyString
  end.

(** [re.search(r'(\d+)', s)]: the group of the leftmost match, if any. *)
Fixpoint search_digits (s : string) : option string :=
  match s with
  | EmptyString => None
  | String c t =>
      if is_digit c then Some (String c (take_digits t)) else search_digits t
  end.

(** [s.split(', ')]: cut at every occurrence of the separator, scanning
    from the left; the pieces are never an empty list. *)
Fixpoint split_comma_space (s : string) : list string :=
  match s with
  | EmptyString => [EmptyString]
  | String c t =>
      let keep :=
        match split_comma_space t with
        | h :: r => String c h :: r
        | [] => [String c EmptyString]
        end in
      match t with
      | String d t' =>
          if Ascii.eqb c "," && Ascii.eqb d " "
          then EmptyString :: split_comma_space t'
          else keep
      | EmptyString => keep
      end
  end.

Definition lower (c : ascii) : ascii :=
  let n := nat_of_ascii c in
  if (65 <=? n)%nat && (n <=? 90)%nat then ascii_of_nat (n + 32) else c.

Fixpoint lower_str (s : string) : string :=
  match s with
  | EmptyString => EmptyString
  | String c t => String (lower c) (lower_str t)
  end.

(** Characters with a special meaning in a regular expression. *)
Definition is_meta (c : ascii) : bool :=
  existsb (Ascii.eqb c)
    ["."; "^"; "$"; "*"; "+"; "?"; "{"; "}"; "["; "]"; "\"; "|"; "("; ")"]%char.


(** The fragment of regular expressions the explorer is modelled on:
    a sequence of ordinary characters and of dots. *)
Inductive atom : Type :=
| Lit (c : ascii)
| AnyChar.

(** [re.compile(pat, re.IGNORECASE)] on that fragment; [None] for a
    pattern that uses any other construct. *)
Fixpoint re_compile (pat : string) : option (list atom) :=
  match pat with
  | EmptyString => Some []
  | String c t =>
      match re_compile t with
      | None => None
      | Some p =>
          if Ascii.eqb c "." then Some (AnyChar :: p)
          else if is_meta c then None
          else Some (Lit c :: p)
      end
  end.

Definition newline : ascii := ascii_of_nat 10.

(** One atom against one character, ignoring case. *)
Definition atom_matches (a : atom) (c : ascii) : bool :=
  match a with
  | Lit l => Ascii.eqb (lower l) (lower c)
  | AnyChar => negb (Ascii.eqb c newline)
  end.

Fixpoint match_here (p : list atom) (s : string) : bool :=
  match p, s with
  | [], _ => true
  | _ :: _, EmptyString => false
  | a :: p', String c t => atom_matches a c && match_here p' t
  end.

(** [pat.search(s) is not None]: a match starting at some position. *)
Fixpoint re_search (p : list atom) (s : string) : bool :=
  match_here p s ||
  match s with
  | EmptyString => false
  | String _ t => re_search p t
  end.


End Text.

(** ** Rows *)

(** A row of the CSV as [read_csv] delivers it, every cell as text or NaN. *)
Record csv_row : Type := {
  csv_title : option string;
  csv_year : option string;
  csv_runtime : option string;
  csv_genre : option string;
  csv_rating : option string
}.

(** A row of the cleaned frame. *)
Record film : Type := {
  title : option string;
  year : option Z;
  runtime : option string;
  genre : option string;
  rating : option string;
  runtime_min : option Z;
  decade : option Z;
  genre_list : option (list string);
  rating_clean : option string
}.

Definition frame : Type := list film.

(** ** Series operations *)

(** [s.fillna(v)] *)
Definition fillna {A : Type} (v : A) (x : option A) : option A :=
  match x with
  | Some a => Some a
  | None => Some v
  end.

(** [s.astype(str)]: NaN becomes the text [nan]. *)
Definition astype_str (x : option string) : string :=
  match x with
  | Some s => s
  | None => "nan"
  end.

(** [s.str.extract(r'(\d+)')] *)
Definition str_extract_digits (s : string) : option string :=
  Text.search_digits s.

(** [.astype(float)] on the extracted digits. *)
Definition astype_float (x : option string) : option Z :=
  option_map Text.digits_value x.

(** [s.str.split(', ')]: NaN stays NaN. *)
Definition str_split (x : option string) : option (list string) :=
  option_map Text.split_comma_space x.

(** [s // 10 * 10] *)
Definition floor_decade (x : option Z) : option Z :=
  option_map (fun y => y / 10 * 10) x.

(** ** DATA ENGINE *)

Section DataEngine.

(** [pd.to_numeric(cell, errors='coerce')] on one cell of the [year]
    column: a number, or NaN for what does not parse. *)
Variable to_numeric : option string -> option Z.

Definition clean_row (r : csv_row) : film :=
  {| title := csv_title r;
     year := to_numeric (csv_year r);
     runtime := csv_runtime r;
     genre := csv_genre r;
     rating := csv_rating r;
     runtime_min :=
       astype_float (str_extract_digits (astype_str (csv_runtime r)));
     decade := floor_decade (to_numeric (csv_year r));
     genre_list := str_split (fillna "Unknown" (csv_genre r));
     rating_clean := fillna "Unclassified" (csv_rating r) |}.

Definition load_and_clean_data (csv : list csv_row) : frame :=
  map clean_row csv.

End DataEngine.

(** ** Frame operations *)

(** [df[name]]: one column of a frame. *)
Definition col {R A : Type} (f : R -> A) (df : list R) : list A := map f df.

(** [s >= v] and [s <= v]: a comparison with NaN is false. *)
Definition ge_scalar (s : list (option Z)) (v : Z) : list bool :=
  map (fun x => match x with Some y => v <=? y | None => false end) s.

Definition le_scalar (s : list (option Z)) (v : Z) : list bool :=
  map (fun x => match x with Some y => y <=? v | None => false end) s.

Definition gt_scalar (s : list (option Z)) (v : Z) : list bool :=
  map (fun x => match x with Some y => v <? y | None => false end) s.

(** [m1 & m2] on two masks of one frame. *)
Definition mask_and (m1 m2 : list bool) : list bool :=
  map (fun p => fst p && snd p) (combine m1 m2).

(** [df[mask]]: the rows whose mask entry is true, in order. *)
Definition select {R : Type} (df : list R) (mask : list bool) : list R :=
  map fst (filter snd (combine df mask)).

(** [mask.sum()] *)
Definition mask_sum (m : list bool) : nat := List.length (filter (fun b => b) m).

(** [s.isna()] *)
Definition isna {A : Type} (s : list (option A)) : list bool :=
  map (fun x => match x with Some _ => false | None => true end) s.

(** [s == v] on a text column. *)
Definition eq_scalar (s : list (option string)) (v : string) : list bool :=
  map (fun x => match x with Some a => String.eqb a v | None => false end) s.

(** [df.head(n)] *)
Definition head {R : Type} (n : nat) (df : list R) : list R := firstn n df.

(** [df.iloc[0]] *)
Definition iloc0 {R : Type} (df : list R) : outcome R :=
  match df with
  | r :: _ => Ok r
  | [] => Raise IndexError
  end.

(** The values of a numeric column that are not NaN. *)
Definition dropna {A : Type} (s : list (option A)) : list A :=
  flat_map (fun x => match x with Some a => [a] | None => [] end) s.

(** [s.min()] and [s.max()]: NaN is skipped, and NaN is the result when
    nothing is left. *)
Definition series_min (s : list (option Z)) : option Z :=
  match dropna s with
  | [] => None
  | a :: t => Some (fold_left Z.min t a)
  end.

Definition series_max (s : list (option Z)) : option Z :=
  match dropna s with
  | [] => None
  | a :: t => Some (fold_left Z.max t a)
  end.

(** [s.mean()]: NaN is skipped, and NaN is the result when nothing is left. *)
Definition series_mean (s : list (option Z)) : option Q :=
  match dropna s with
  | [] => None
  | a :: t =>
      Some (inject_Z (fold_left Z.add t a) / inject_Z (Z.of_nat (List.length (a :: t))))%Q
  end.

(** [int(x)]: raises on NaN. *)
Definition py_int (x : option Z) : outcome Z :=
  match x with
  | Some z => Ok z
  | None => Raise ValueError
  end.

(** [df.explode(name)] on a column of lists, reduced to that column: one
    row per element, and one NaN row for an empty or missing list. *)
Definition explode {A : Type} (s : list (option (list A))) : list (option A) :=
  flat_map (fun x =>
              match x with
              | Some (a :: t) => map Some (a :: t)
              | Some [] => [None]
              | None => [None]
              end) s.

(** Group keys are ordered: [groupby] sorts them ([sort=True]). *)
Class Key (K : Type) : Type := kcmp : K -> K -> comparison.

#[export] Instance Key_Z : Key Z := Z.compare.
#[export] Instance Key_string : Key string := String.compare.

Class KeyLaws (K : Type) `{Key K} : Prop := {
  kcmp_eq : forall a b : K, kcmp a b = Eq <-> a = b;
  kcmp_antisym : forall a b : K, kcmp b a = CompOpp (kcmp a b);
  kcmp_trans : forall a b c : K, kcmp a b = Lt -> kcmp b c = Lt -> kcmp a c = Lt
}.

Definition klt {K : Type} `{Key K} (a b : K) : Prop := kcmp a b = Lt.

(** The keys of a table stand in strictly ascending order. *)
Definition keys_ascending {K : Type} `{Key K} (s : list (K * nat)) : Prop :=
  StronglySorted klt (map fst s).

Section GroupBy.

Context {K : Type} `{Key K}.

(** One more member for the group of [k], in a table kept in key order. *)
Fixpoint bump (k : K) (s : list (K * nat)) : list (K * nat) :=
  match s with
  | [] => [(k, 1%nat)]
  | (k', n) :: t =>
      match kcmp k k' with
      | Lt => (k, 1%nat) :: s
      | Eq => (k', S n) :: t
      | Gt => (k', n) :: bump k t
      end
  end.

(** [df.groupby(key).size()]: one entry per distinct key in ascending
    key order; rows whose key is NaN belong to no group. *)
Fixpoint groupby_size (keys : list (option K)) : list (K * nat) :=
  match keys with
  | [] => []
  | Some k :: t => bump k (groupby_size t)
  | None :: t => groupby_size t
  end.

(** The number of rows with key [k]. *)
Fixpoint occurrences (k : K) (keys : list (option K)) : nat :=
  match keys with
  | [] => 0
  | Some k' :: t =>
      match kcmp k k' with
      | Eq => S (occurrences k t)
      | _ => occurrences k t
      end
  | None :: t => occurrences k t
  end.

(** The count a table holds for [k], zero when it has no such row. *)
Fixpoint lookup_count (k : K) (s : list (K * nat)) : nat :=
  match s with
  | [] => 0
  | (k', n) :: t =>
      match kcmp k k' with
      | Eq => n
      | _ => lookup_count k t
      end
  end.

End GroupBy.

(** [s.reset_index(name=...)]: the rows get the labels 0, 1, 2, ... *)
Definition reset_index {R : Type} (rows : list R) : list (nat * R) :=
  combine (seq 0 (List.length rows)) rows.

Section SortValues.

Context {R : Type} (by_col : R -> Z).

Fixpoint insert_sorted (x : R) (l : list R) : list R :=
  match l with
  | [] => [x]
  | y :: t => if by_col x <=? by_col y then x :: l else y :: insert_sorted x t
  end.

(** The ascending sort behind [sort_values].  The library's default sort
    finishes its short ranges by insertion, which leaves rows with equal
    keys in their order; every table is sorted that way here. *)
Definition stable_sort (l : list R) : list R := fold_right insert_sorted [] l.

(** [df.sort_values(by, ascending=...)]: the rows keep their labels.  A
    descending sort reverses the rows, sorts ascending and reverses
    again, so that rows with equal keys stay in their original order. *)
Definition sort_values (ascending : bool) (l : list R) : list R :=
  if ascending then stable_sort l else rev (stable_sort (rev l)).

End SortValues.

(** [s.idxmax()]: the label of the first row holding the maximum. *)
Fixpoint idxmax_from (best_label best : nat) (s : list (nat * nat)) : nat :=
  match s with
  | [] => best_label
  | (i, v) :: t =>
      if (best <? v)%nat then idxmax_from i v t else idxmax_from best_label best t
  end.

Definition idxmax (s : list (nat * nat)) : outcome nat :=
  match s with
  | [] => Raise ValueError
  | (i, v) :: t => Ok (idxmax_from i v t)
  end.

(** [df.loc[label]] *)
Definition loc {R : Type} (label : nat) (df : list (nat * R)) : outcome R :=
  match find (fun r => (fst r =? label)%nat) df with
  | Some r => Ok (snd r)
  | None => Raise KeyError
  end.

(** [s.str.contains(pat, case=False, na=False)] with a compiled pattern. *)
Definition str_contains (p : list Text.atom) (s : list (option string)) : list bool :=
  map (fun x => match x with Some t => Text.re_search p t | None => false end) s.

(** ** SIDEBAR FILTERS *)

(** [year_min] and [year_max], the bounds of the slider. *)
Definition year_bounds (df : frame) : outcome (Z * Z) :=
  year_min <- py_int (series_min (col year df)) ;;
  year_max <- py_int (series_max (col year df)) ;;
  Ok (year_min, year_max).

Definition df_filtered (year_range : Z * Z) (df : frame) : frame :=
  select df
    (mask_and (ge_scalar (col year df) (fst year_range))
              (le_scalar (col year df) (snd year_range))).

(** ** KPI METRICS *)

Definition total_films (dff : frame) : nat := List.length dff.

Definition unclassified (dff : frame) : nat :=
  mask_sum (eq_scalar (col rating_clean dff) "Unclassified").

Definition missing_runtime (dff : frame) : nat :=
  mask_sum (isna (col runtime_min dff)).

Definition avg_runtime (dff : frame) : option Q :=
  series_mean (col runtime_min dff).

(** [part / total * 100 if total else 0] *)
Definition percent_of (part total : nat) : Q :=
  match total with
  | O => 0%Q
  | S _ => (inject_Z (Z.of_nat part) / inject_Z (Z.of_nat total) * 100)%Q
  end.

Definition unclassified_rate (dff : frame) : Q :=
  percent_of (unclassified dff) (total_films dff).

Definition missing_runtime_rate (dff : frame) : Q :=
  percent_of (missing_runtime dff) (total_films dff).

(** ** TAB 0: EXECUTIVE SUMMARY *)

(** A row of a count table: its label, its group key, its [film_count]. *)
Definition count_row (K : Type) : Type := (nat * (K * nat))%type.

Definition row_key {K : Type} (r : count_row K) : K := fst (snd r).
Definition film_count {K : Type} (r : count_row K) : nat := snd (snd r).

Definition yearly_counts (dff : frame) : list (count_row Z) :=
  sort_values row_key true (reset_index (groupby_size (col year dff))).

Definition peak_year (dff : frame) : outcome (Z * nat) :=
  let yc := yearly_counts dff in
  label <- idxmax (map (fun r => (fst r, film_count r)) yc) ;;
  loc label yc.

(** The genre table before [head]. *)
Definition genre_table (dff : frame) : list (count_row string) :=
  sort_values (fun r => Z.of_nat (film_count r)) false
    (reset_index (groupby_size (explode (col genre_list dff)))).

Definition genre_leader (dff : frame) : outcome (string * nat) :=
  r <- iloc0 (head 1 (genre_table dff)) ;;
  Ok (snd r).

Definition long_films (dff : frame) : nat :=
  mask_sum (gt_scalar (col runtime_min dff) 150).

(** ** TAB 2: GENRE DISTRIBUTION *)

(** The genre table cut to its first [topN] rows; the tab takes ten. *)
Definition genre_top (topN : nat) (dff : frame) : list (count_row string) :=
  head topN (genre_table dff).

Definition genre_counts (dff : frame) : list (count_row string) :=
  genre_top 10 dff.

(** ** TAB 3: METADATA INTEGRITY *)

Definition rating_dist (dff : frame) : list (count_row string) :=
  reset_index (groupby_size (col rating_clean dff)).

(** ** DATA EXPLORER *)

(** The rows the explorer shows for the text typed into the search box;
    [None] when the text is a pattern outside the modelled fragment. *)
Definition explorer (search : string) (dff : frame) : option frame :=
  match search with
  | EmptyString => Some (head 20 dff)
  | String _ _ =>
      match Text.re_compile search with
      | Some p => Some (select dff (str_contains p (col title dff)))
      | None => None
      end
  end.

(** ** Vocabulary of the statements *)

(** The year of a row lies in the range, bounds included. *)
Definition in_year_range (lo hi : Z) (r : film) : bool :=
  match year r with
  | Some y => (lo <=? y) && (y <=? hi)
  | None => false
  end.



(** The rows of a count table without their labels. *)
Definition rows_of {K : Type} (t : list (count_row K)) : list (K * nat) :=
  map snd t.

(** The distinct values of a column in the order of their first occurrence. *)
Fixpoint first_seen_order (s : list (option string)) : list string :=
  match s with
  | [] => []
  | Some a :: t => a :: filter (fun b => negb (String.eqb a b)) (first_seen_order t)
  | None :: t => first_seen_order t
  end.


(** A film with nothing but a year, a genre list, a rating and a title. *)
Definition sample (t : option string) (y : option Z) (g : list string)
    (rt : option string) : film :=
  {| title := t; year := y; runtime := None; genre := None; rating := None;
     runtime_min := None; decade := floor_decade y;
     genre_list := Some g; rating_clean := rt |}.

(** A coercion for the [year] column on plain decimal numerals. *)
Definition decimal_year (x : option string) : option Z :=
  match x with
  | Some (String c t) =>
      if Text.all_digits (String c t) then Some (Text.digits_value (String c t))
      else None
  | _ => None
  end.

(** How often a genre is named by the rows of a frame. *)
Definition genre_mentions (g : string) (dff : frame) : nat :=
  list_sum
    (map (fun r =>
            match genre_list r with
            | Some l => count_occ string_dec l g
            | None => 0%nat
            end) dff).





(** The rating table as the specification words it: one row per distinct
    rating, in the order of first occurrence. *)
Definition rating_dist_as_specified (dff : frame) : Prop :=
  map fst (rows_of (rating_dist dff)) = first_seen_order (col rating_clean dff) /\
  forall k n, In (k, n) (rows_of (rating_dist dff)) ->
              n = occurrences k (col rating_clean dff).


(** ** TAB 4: CLASSIFICATION & COMPLIANCE *)

(** Keys made of two columns are ordered by the first, then the second. *)
#[export] Instance Key_pair {A B : Type} `{Key A} `{Key B} : Key (A * B) :=
  fun p q =>
    match kcmp (fst p) (fst q) with
    | Eq => kcmp (snd p) (snd q)
    | c => c
    end.

(** The key of a row under [groupby([a, b])]: NaN as soon as one column is,
    and such a row belongs to no group. *)
Definition pair_key {A B : Type} (a : option A) (b : option B) : option (A * B) :=
  match a, b with
  | Some x, Some y => Some (x, y)
  | _, _ => None
  end.

Definition rating_decade (dff : frame) : list (count_row (Z * string)) :=
  reset_index
    (groupby_size (map (fun r => pair_key (decade r) (rating_clean r)) dff)).

(** ** More vocabulary *)

(** The number of rows of a frame that satisfy a test. *)
Definition count_where {R : Type} (f : R -> bool) (df : list R) : nat :=
  List.length (filter f df).

(** The counts of the rows of a table whose key satisfies a test, added up. *)
Definition sum_where {K : Type} (f : K -> bool) (s : list (K * nat)) : nat :=
  list_sum (map snd (filter (fun p => f (fst p)) s)).


Definition has_rating (k : string) (r : film) : bool :=
  match rating_clean r with
  | Some a => String.eqb a k
  | None => false
  end.

Definition in_year (y : Z) (r : film) : bool :=
  match year r with
  | Some a => a =? y
  | None => false
  end.

(** The number of genres a row names. *)
Definition genres_named (r : film) : nat :=
  match genre_list r with
  | Some l => List.length l
  | None => 0%nat
  end.

(** * Properties *)

(** ** The order of group keys *)

Lemma Z_key_trans (a b c : Z) :
  kcmp a b = Lt -> kcmp b c = Lt -> kcmp a c = Lt.
Proof.
  unfold kcmp, Key_Z. rewrite !Z.compare_lt_iff. lia.
Qed.

Lemma string_key_trans (a b c : string) :
  kcmp a b = Lt -> kcmp b c = Lt -> kcmp a c = Lt.
Proof.
  unfold kcmp, Key_string.
  change String.compare with OrderedTypeEx.String_as_OT.cmp.
  rewrite !OrderedTypeEx.String_as_OT.cmp_lt.
  apply OrderedTypeEx.String_as_OT.lt_trans.
Qed.

#[export] Instance KeyLaws_Z : KeyLaws Z.
Proof.
  split.
  - exact Z.compare_eq_iff.
  - intros a b. apply Z.compare_antisym.
  - exact Z_key_trans.
Qed.

#[export] Instance KeyLaws_string : KeyLaws string.
Proof.
  split.
  - exact OrderedTypeEx.String_as_OT.cmp_eq.
  - intros a b. apply OrderedTypeEx.String_as_OT.cmp_antisym.
  - exact string_key_trans.
Qed.

Section KeyFacts.

Context {K : Type} `{KeyLaws K}.

Lemma kcmp_refl (a : K) : kcmp a a = Eq.
Proof. now apply kcmp_eq. Qed.

Lemma kcmp_gt_lt (a b : K) : kcmp a b = Gt -> kcmp b a = Lt.
Proof. intros E. rewrite kcmp_antisym, E. reflexivity. Qed.

Lemma kcmp_lt_gt (a b : K) : kcmp a b = Lt -> kcmp b a = Gt.
Proof. intros E. rewrite kcmp_antisym, E. reflexivity. Qed.

Lemma klt_irrefl (a : K) : ~ klt a a.
Proof. unfold klt. rewrite kcmp_refl. discriminate. Qed.

Lemma klt_trans (a b c : K) : klt a b -> klt b c -> klt a c.
Proof. apply kcmp_trans. Qed.

Lemma klt_asym (a b : K) : klt a b -> ~ klt b a.
Proof. intros L1 L2. exact (klt_irrefl a (klt_trans _ _ _ L1 L2)). Qed.

End KeyFacts.

(** ** Load and clean *)

Lemma split_comma_space_nonempty (s : string) :
  (1 <= List.length (Text.split_comma_space s))%nat.
Proof.
  induction s as [|c t IH]; simpl.
  - lia.
  - assert (Hk : (1 <= List.length
                    match Text.split_comma_space t with
                    | [] => [String c EmptyString]
                    | h :: r => String c h :: r
                    end)%nat).
    { destruct (Text.split_comma_space t); simpl; lia. }
    destruct t as [|d t']; [exact Hk|].
    destruct (Ascii.eqb c "," && Ascii.eqb d " "); [simpl; lia | exact Hk].
Qed.

(** C2. Every row that [load_and_clean_data] produces has a [rating_clean]
    that is not NaN and a [genre_list] that is a list of at least one
    element; a row without a rating gets ["Unclassified"], a row without
    a genre gets the one-element list [["Unknown"]]. *)
Theorem load_defaults_rating_and_genre
    (to_numeric : option string -> option Z) (csv : list csv_row) :
  Forall (fun r =>
            rating_clean r <> None /\
            (exists l, genre_list r = Some l /\ (1 <= List.length l)%nat) /\
            (rating r = None -> rating_clean r = Some "Unclassified") /\
            (genre r = None -> genre_list r = Some ["Unknown"]))
         (load_and_clean_data to_numeric csv).
Proof.
  unfold load_and_clean_data. apply Forall_map, Forall_forall.
  intros raw _. simpl. repeat split.
  - destruct (csv_rating raw); discriminate.
  - destruct (csv_genre raw) as [g|]; simpl; eexists; split;
      try reflexivity; apply split_comma_space_nonempty.
  - intros ->. reflexivity.
  - intros ->. reflexivity.
Qed.






(** ** The year-range filter *)

Lemma df_filtered_filter (lo hi : Z) (df : frame) :
  df_filtered (lo, hi) df = filter (in_year_range lo hi) df.
Proof.
  unfold df_filtered, select, mask_and, ge_scalar, le_scalar, col. simpl.
  induction df as [|r df IH]; simpl; [reflexivity|].
  unfold in_year_range at 1.
  destruct (year r) as [y|]; simpl.
  - destruct (lo <=? y), (y <=? hi); simpl; now rewrite IH.
  - exact IH.
Qed.

Lemma in_year_range_spec (lo hi : Z) (r : film) :
  in_year_range lo hi r = true <->
  exists y, year r = Some y /\ lo <= y <= hi.
Proof.
  unfold in_year_range. destruct (year r) as [y|].
  - rewrite andb_true_iff, !Z.leb_le. split.
    + intros Hy. exists y. split; [reflexivity | lia].
    + intros (y' & E & Hy). injection E as ->. lia.
  - split; [discriminate | intros (y & E & _); discriminate].
Qed.

(** C3. Filtering by a year range keeps exactly the rows whose year is
    present and lies between the two bounds, both included, in their
    order; a row without a year is never kept. *)
Theorem df_filtered_exactly_in_range (df : frame) (lo hi : Z) :
  df_filtered (lo, hi) df = filter (in_year_range lo hi) df /\
  (forall r, In r (df_filtered (lo, hi) df) <->
             In r df /\ exists y, year r = Some y /\ lo <= y <= hi) /\
  (forall r, year r = None -> ~ In r (df_filtered (lo, hi) df)).
Proof.
  rewrite df_filtered_filter. split; [reflexivity|]. split.
  - intros r. now rewrite filter_In, in_year_range_spec.
  - intros r Hy Hin. apply filter_In in Hin as [_ Hr].
    apply in_year_range_spec in Hr as (y & E & _). congruence.
Qed.

Lemma df_filtered_years_present (range : Z * Z) (df : frame) :
  Forall (fun r => year r <> None) (df_filtered range df).
Proof.
  destruct range as [lo hi]. rewrite df_filtered_filter.
  apply Forall_forall. intros r Hin. apply filter_In in Hin as [_ Hr].
  apply in_year_range_spec in Hr as (y & E & _). congruence.
Qed.

(** ** The bounds of the slider *)

Lemma dropna_all_nan {A : Type} (s : list (option A)) :
  Forall (fun x => x = None) s -> dropna s = [].
Proof.
  induction 1 as [|x s Hx _ IH]; simpl; [reflexivity|].
  subst x. exact IH.
Qed.

(** C10. When no row of the loaded CSV has a year that parses, loading
    still yields one cleaned row per CSV row, and computing the bounds
    of the year slider raises. *)
Theorem year_bounds_raise_without_years
    (to_numeric : option string -> option Z) (csv : list csv_row) :
  (forall r, In r csv -> to_numeric (csv_year r) = None) ->
  List.length (load_and_clean_data to_numeric csv) = List.length csv /\
  year_bounds (load_and_clean_data to_numeric csv) = Raise ValueError.
Proof.
  intros Hnan. split.
  - apply length_map.
  - unfold year_bounds, series_min, col.
    rewrite dropna_all_nan; [reflexivity|].
    unfold load_and_clean_data. rewrite map_map. apply Forall_map, Forall_forall.
    intros r Hin. simpl. auto.
Qed.

Lemma year_bounds_raise_without_years_witness :
  year_bounds
    (load_and_clean_data decimal_year
       [ {| csv_title := Some "Darah dan Doa"; csv_year := Some "n/a";
            csv_runtime := Some "128 min"; csv_genre := Some "Drama, War";
            csv_rating := None |};
         {| csv_title := Some "Tiga Dara"; csv_year := None;
            csv_runtime := None; csv_genre := Some "Comedy, Musical";
            csv_rating := Some "13+" |} ])
  = Raise ValueError.
Proof.
  apply year_bounds_raise_without_years.
  intros r [<- | [<- | []]]; reflexivity.
Defined.

(** ** Group sizes *)

Lemma rows_of_reset_index {K : Type} (g : list (K * nat)) :
  rows_of (reset_index g) = g.
Proof.
  unfold rows_of, reset_index. generalize 0%nat.
  induction g as [|a g IH]; intros s; simpl; [reflexivity|].
  now rewrite IH.
Qed.

Lemma labels_of_reset_index {R : Type} (g : list R) :
  map fst (reset_index g) = seq 0 (List.length g).
Proof.
  unfold reset_index. generalize 0%nat.
  induction g as [|a g IH]; intros s; simpl; [reflexivity|].
  now rewrite IH.
Qed.

Section GroupByFacts.

Context {K : Type} `{KeyLaws K}.

Lemma bump_total (k : K) (s : list (K * nat)) :
  list_sum (map snd (bump k s)) = S (list_sum (map snd s)).
Proof.
  induction s as [|[k' n] t IH]; simpl; [reflexivity|].
  destruct (kcmp k k'); simpl; [reflexivity | reflexivity |].
  rewrite IH. lia.
Qed.

Lemma groupby_size_total (keys : list (option K)) :
  list_sum (map snd (groupby_size keys)) = List.length (dropna keys).
Proof.
  induction keys as [|[k|] t IH]; simpl; [reflexivity | | exact IH].
  now rewrite bump_total, IH.
Qed.

Lemma bump_keys (k k0 : K) (s : list (K * nat)) :
  In k (map fst (bump k0 s)) <-> k = k0 \/ In k (map fst s).
Proof.
  induction s as [|[k' n] t IH]; simpl; [intuition|].
  destruct (kcmp k0 k') eqn:E; simpl.
  - apply kcmp_eq in E. subst k'. intuition.
  - intuition.
  - rewrite IH. intuition.
Qed.

Lemma bump_ascending (k : K) (s : list (K * nat)) :
  keys_ascending s -> keys_ascending (bump k s).
Proof.
  unfold keys_ascending.
  induction s as [|[k' n] t IH]; simpl; intros Hs.
  - repeat constructor.
  - inversion Hs as [|? ? Ht Hall]; subst.
    destruct (kcmp k k') eqn:E; simpl.
    + constructor; assumption.
    + constructor; [exact Hs|]. constructor; [exact E|].
      eapply Forall_impl; [|exact Hall].
      intros a Ha. exact (klt_trans _ _ _ E Ha).
    + constructor; [now apply IH|].
      apply Forall_forall. intros a Ha. apply bump_keys in Ha as [->|Ha].
      * now apply kcmp_gt_lt.
      * rewrite Forall_forall in Hall. now apply Hall.
Qed.

Lemma groupby_size_ascending (keys : list (option K)) :
  keys_ascending (groupby_size keys).
Proof.
  induction keys as [|[k|] t IH]; simpl.
  - constructor.
  - now apply bump_ascending.
  - exact IH.
Qed.

Lemma bump_positive (k : K) (s : list (K * nat)) :
  Forall (fun p => (0 < snd p)%nat) s ->
  Forall (fun p => (0 < snd p)%nat) (bump k s).
Proof.
  induction s as [|[k' n] t IH]; simpl; intros Hs.
  - repeat constructor.
  - inversion Hs; subst. simpl in *.
    destruct (kcmp k k'); constructor; simpl; auto; lia.
Qed.

Lemma groupby_size_positive (keys : list (option K)) :
  Forall (fun p => (0 < snd p)%nat) (groupby_size keys).
Proof.
  induction keys as [|[k|] t IH]; simpl; auto using bump_positive.
Qed.

Lemma lookup_count_below (k : K) (s : list (K * nat)) :
  Forall (klt k) (map fst s) -> lookup_count k s = 0%nat.
Proof.
  induction s as [|[k' n] t IH]; simpl; intros Hs; [reflexivity|].
  inversion Hs as [|? ? Hk Ht]; subst. unfold klt in Hk. rewrite Hk. auto.
Qed.

Lemma lookup_count_bump (k k0 : K) (s : list (K * nat)) :
  keys_ascending s ->
  lookup_count k (bump k0 s) =
  match kcmp k k0 with
  | Eq => S (lookup_count k s)
  | _ => lookup_count k s
  end.
Proof.
  unfold keys_ascending.
  induction s as [|[k' n] t IH]; simpl; intros Hs.
  - destruct (kcmp k k0); reflexivity.
  - inversion Hs as [|? ? Ht Hall]; subst.
    destruct (kcmp k0 k') eqn:E0; simpl.
    + apply kcmp_eq in E0. subst k'.
      destruct (kcmp k k0); reflexivity.
    + destruct (kcmp k k0) eqn:E; try reflexivity.
      apply kcmp_eq in E. subst k0. rewrite E0.
      rewrite lookup_count_below; [reflexivity|].
      eapply Forall_impl; [|exact Hall].
      intros a Ha. exact (klt_trans _ _ _ E0 Ha).
    + destruct (kcmp k k') eqn:E.
      * apply kcmp_eq in E. subst k'.
        rewrite (kcmp_antisym k0 k), E0. reflexivity.
      * now apply IH.
      * now apply IH.
Qed.

Lemma lookup_count_groupby (k : K) (keys : list (option K)) :
  lookup_count k (groupby_size keys) = occurrences k keys.
Proof.
  induction keys as [|[k0|] t IH]; simpl; [reflexivity | | exact IH].
  rewrite lookup_count_bump by apply groupby_size_ascending.
  rewrite IH. destruct (kcmp k k0); reflexivity.
Qed.

Lemma lookup_count_of_row (k : K) (n : nat) (s : list (K * nat)) :
  keys_ascending s -> In (k, n) s -> lookup_count k s = n.
Proof.
  unfold keys_ascending.
  induction s as [|[k' n'] t IH]; simpl; intros Hs Hin; [contradiction|].
  inversion Hs as [|? ? Ht Hall]; subst.
  destruct Hin as [E|Hin].
  - injection E as -> ->. now rewrite kcmp_refl.
  - assert (Hlt : klt k' k).
    { rewrite Forall_forall in Hall. apply Hall.
      change k with (fst (k, n)). now apply in_map. }
    unfold klt in Hlt. rewrite (kcmp_lt_gt _ _ Hlt). auto.
Qed.

Lemma row_of_lookup_count (k : K) (n : nat) (s : list (K * nat)) :
  lookup_count k s = n -> (0 < n)%nat -> In (k, n) s.
Proof.
  induction s as [|[k' n'] t IH]; simpl; intros E Hn; [lia|].
  destruct (kcmp k k') eqn:Ek.
  - apply kcmp_eq in Ek. subst. now left.
  - right. auto.
  - right. auto.
Qed.

(** The table of group sizes has a row for a key exactly when some row
    of the column holds it, and that row counts them. *)
Lemma groupby_size_rows (k : K) (n : nat) (keys : list (option K)) :
  In (k, n) (groupby_size keys) <-> n = occurrences k keys /\ (0 < n)%nat.
Proof.
  split.
  - intros Hin. split.
    + rewrite <- lookup_count_groupby. symmetry.
      apply lookup_count_of_row; [apply groupby_size_ascending | exact Hin].
    + pose proof (groupby_size_positive keys) as Hp.
      rewrite Forall_forall in Hp. exact (Hp _ Hin).
  - intros [-> Hn]. apply row_of_lookup_count; [|exact Hn].
    apply lookup_count_groupby.
Qed.

Lemma occurrences_positive (k : K) (keys : list (option K)) :
  (0 < occurrences k keys)%nat <-> In (Some k) keys.
Proof.
  induction keys as [|[k0|] t IH]; simpl.
  - split; [lia | contradiction].
  - destruct (kcmp k k0) eqn:E.
    + apply kcmp_eq in E. subst. split; [now left | lia].
    + rewrite IH. split; [now right|]. intros [E'|Hin]; [|exact Hin].
      injection E' as ->. rewrite kcmp_refl in E. discriminate.
    + rewrite IH. split; [now right|]. intros [E'|Hin]; [|exact Hin].
      injection E' as ->. rewrite kcmp_refl in E. discriminate.
  - rewrite IH. split; [now right|]. intros [E'|Hin]; [discriminate|exact Hin].
Qed.

Lemma groupby_size_keys (k : K) (keys : list (option K)) :
  In k (map fst (groupby_size keys)) <-> In (Some k) keys.
Proof.
  rewrite <- occurrences_positive. split.
  - intros Hin. apply in_map_iff in Hin as ([k' n] & E & Hin).
    simpl in E. subst k'. now apply groupby_size_rows in Hin as [-> Hn].
  - intros Hn. change k with (fst (k, occurrences k keys)).
    apply in_map. now apply groupby_size_rows.
Qed.

Lemma ascending_NoDup (l : list K) : StronglySorted klt l -> NoDup l.
Proof.
  induction 1 as [|a l Hl IH Hall]; constructor; [|exact IH].
  intros Hin. rewrite Forall_forall in Hall.
  exact (klt_irrefl a (Hall a Hin)).
Qed.

End GroupByFacts.

(** ** Sorting a table *)

Section SortFacts.

Context {R : Type} (by_col : R -> Z).

Lemma insert_sorted_In (x a : R) (l : list R) :
  In a (insert_sorted by_col x l) <-> a = x \/ In a l.
Proof.
  induction l as [|y t IH]; simpl; [intuition|].
  destruct (by_col x <=? by_col y); simpl; [intuition|].
  rewrite IH. intuition.
Qed.

Lemma stable_sort_In (a : R) (l : list R) :
  In a (stable_sort by_col l) <-> In a l.
Proof.
  induction l as [|x t IH]; simpl; [reflexivity|].
  rewrite insert_sorted_In, IH. intuition.
Qed.

Lemma sort_values_In (asc : bool) (a : R) (l : list R) :
  In a (sort_values by_col asc l) <-> In a l.
Proof.
  destruct asc; simpl.
  - apply stable_sort_In.
  - now rewrite <- in_rev, stable_sort_In, <- in_rev.
Qed.

(** Sorting rows that are in order already changes nothing. *)
Lemma stable_sort_sorted (l : list R) :
  StronglySorted (fun a b => by_col a <= by_col b) l ->
  stable_sort by_col l = l.
Proof.
  induction 1 as [|a l Hl IH Hall]; simpl; [reflexivity|].
  rewrite IH. destruct l as [|b t]; simpl; [reflexivity|].
  inversion Hall as [|? ? Hab _]; subst.
  apply Z.leb_le in Hab. now rewrite Hab.
Qed.



End SortFacts.

Lemma StronglySorted_app_cons {A : Type} (rel : A -> A -> Prop)
    (pre post : list A) (x : A) :
  StronglySorted rel (pre ++ x :: post) -> Forall (rel x) post.
Proof.
  induction pre as [|a pre IH]; simpl; intros Hs.
  - now inversion Hs.
  - inversion Hs; auto.
Qed.



Lemma firstn_In {A : Type} (a : A) (n : nat) (l : list A) :
  In a (firstn n l) -> In a l.
Proof.
  revert n. induction l as [|b l IH]; intros [|n]; simpl; try contradiction.
  intros [E|Hin]; [now left | right; eauto].
Qed.


Lemma StronglySorted_weaken {A : Type} (rel rel' : A -> A -> Prop) (l : list A) :
  (forall a b, rel a b -> rel' a b) ->
  StronglySorted rel l -> StronglySorted rel' l.
Proof.
  intros Hw. induction 1 as [|a l Hl IH Hall]; constructor; auto.
  eapply Forall_impl; [|exact Hall]. auto.
Qed.

Lemma StronglySorted_map {A B : Type} (f : A -> B) (rel : B -> B -> Prop)
    (l : list A) :
  StronglySorted (fun a b => rel (f a) (f b)) l <-> StronglySorted rel (map f l).
Proof.
  induction l as [|a l IH]; simpl.
  - split; constructor.
  - split; intros Hs; inversion Hs; subst; constructor.
    + now apply IH.
    + now apply Forall_map.
    + now apply IH.
    + now apply Forall_map.
Qed.

(** ** Yearly counts *)

Lemma count_row_keys {K : Type} (t : list (count_row K)) :
  map row_key t = map fst (rows_of t).
Proof. unfold rows_of. now rewrite map_map. Qed.

Lemma count_row_counts {K : Type} (t : list (count_row K)) :
  map film_count t = map snd (rows_of t).
Proof. unfold rows_of. now rewrite map_map. Qed.

Lemma Z_klt_le (a b : Z) : klt a b -> a <= b.
Proof. unfold klt, kcmp, Key_Z. rewrite Z.compare_lt_iff. lia. Qed.

(** The groups come in year order, so [sort_values('year')] leaves the
    table as [reset_index] made it. *)
Lemma yearly_counts_reset_index (dff : frame) :
  yearly_counts dff = reset_index (groupby_size (col year dff)).
Proof.
  unfold yearly_counts, sort_values. apply stable_sort_sorted.
  apply StronglySorted_map. rewrite count_row_keys, rows_of_reset_index.
  eapply StronglySorted_weaken; [exact Z_klt_le|].
  apply groupby_size_ascending.
Qed.

Lemma yearly_counts_rows (dff : frame) :
  rows_of (yearly_counts dff) = groupby_size (col year dff).
Proof. now rewrite yearly_counts_reset_index, rows_of_reset_index. Qed.

Lemma dropna_length {A : Type} (s : list (option A)) :
  Forall (fun x => x <> None) s -> List.length (dropna s) = List.length s.
Proof.
  induction 1 as [|x s Hx _ IH]; simpl; [reflexivity|].
  destruct x; [simpl; now rewrite IH | congruence].
Qed.

Lemma filtered_year_groups_total (range : Z * Z) (df : frame) :
  list_sum (map snd (groupby_size (col year (df_filtered range df)))) =
  List.length (df_filtered range df).
Proof.
  rewrite groupby_size_total.
  unfold col. rewrite dropna_length; [apply length_map|].
  apply Forall_map, df_filtered_years_present.
Qed.

(** C4. Over the rows that a year range keeps, the counts of
    [yearly_counts] add up to the number of those rows. *)
Theorem yearly_counts_sum_is_filtered_total (df : frame) (lo hi : Z) :
  list_sum (map film_count (yearly_counts (df_filtered (lo, hi) df))) =
  List.length (df_filtered (lo, hi) df).
Proof.
  rewrite count_row_counts, yearly_counts_rows.
  apply filtered_year_groups_total.
Qed.

(** ** Peak year *)

Lemma idxmax_from_spec (s : list (nat * nat)) (bl bv : nat) :
  (idxmax_from bl bv s = bl /\ Forall (fun p => (snd p <= bv)%nat) s) \/
  (exists pre v post,
      s = pre ++ (idxmax_from bl bv s, v) :: post /\ (bv < v)%nat /\
      Forall (fun p => (snd p < v)%nat) pre /\
      Forall (fun p => (snd p <= v)%nat) post).
Proof.
  revert bl bv. induction s as [|[i v] t IH]; intros bl bv; simpl.
  - left. split; [reflexivity | constructor].
  - destruct (bv <? v)%nat eqn:E.
    + apply Nat.ltb_lt in E. right.
      destruct (IH i v) as [[El Hall] | (pre & v' & post & Es & Hv & Hpre & Hpost)].
      * exists [], v, t. rewrite El. simpl. auto.
      * exists ((i, v) :: pre), v', post. simpl. rewrite <- Es.
        split; [reflexivity|]. split; [lia|]. split; [|exact Hpost].
        constructor; [simpl; lia | exact Hpre].
    + apply Nat.ltb_ge in E.
      destruct (IH bl bv) as [[El Hall] | (pre & v' & post & Es & Hv & Hpre & Hpost)].
      * left. split; [exact El|]. constructor; [simpl; lia | exact Hall].
      * right. exists ((i, v) :: pre), v', post. simpl. rewrite <- Es.
        split; [reflexivity|]. split; [exact Hv|]. split; [|exact Hpost].
        constructor; [simpl; lia | exact Hpre].
Qed.

(** [idxmax] returns the label of a row that holds the maximum, with
    only smaller values before it. *)
Lemma idxmax_spec (s : list (nat * nat)) :
  s <> [] ->
  exists label pre v post,
    idxmax s = Ok label /\ s = pre ++ (label, v) :: post /\
    Forall (fun p => (snd p < v)%nat) pre /\
    Forall (fun p => (snd p <= v)%nat) post.
Proof.
  destruct s as [|[i v] t]; [congruence|]. intros _. simpl.
  destruct (idxmax_from_spec t i v)
    as [[El Hall] | (pre & v' & post & Es & Hv & Hpre & Hpost)].
  - exists i, [], v, t. rewrite El. simpl. auto.
  - exists (idxmax_from i v t), ((i, v) :: pre), v', post.
    simpl. rewrite <- Es.
    split; [reflexivity|]. split; [reflexivity|]. split; [|exact Hpost].
    constructor; [simpl; lia | exact Hpre].
Qed.

Lemma loc_found {R : Type} (label : nat) (r : R) (df : list (nat * R)) :
  NoDup (map fst df) -> In (label, r) df -> loc label df = Ok r.
Proof.
  unfold loc. induction df as [|[l0 r0] t IH]; simpl; intros Hnd Hin;
    [contradiction|].
  inversion Hnd as [|? ? Hnot Hnd']; subst.
  destruct (l0 =? label)%nat eqn:E.
  - apply Nat.eqb_eq in E. subst l0. destruct Hin as [Eq|Hin].
    + now injection Eq as ->.
    + exfalso. apply Hnot. change label with (fst (label, r)). now apply in_map.
  - apply Nat.eqb_neq in E. destruct Hin as [Eq|Hin]; [congruence|]. auto.
Qed.

(** The peak of a labelled count table whose keys ascend: the row of
    the largest count, and of the smallest key among the rows with it. *)
Lemma peak_of_count_table (g : list (Z * nat)) :
  g <> [] -> keys_ascending g ->
  exists y c,
    (label <- idxmax (map (fun r => (fst r, film_count r)) (reset_index g)) ;;
     loc label (reset_index g)) = Ok (y, c) /\
    In (y, c) g /\
    forall y' c', In (y', c') g -> (c' <= c)%nat /\ (c' = c -> y <= y').
Proof.
  intros Hne Hasc.
  set (t := reset_index g).
  assert (Ht : rows_of t = g) by apply rows_of_reset_index.
  assert (Hnd : NoDup (map fst t)).
  { unfold t. rewrite labels_of_reset_index. apply seq_NoDup. }
  destruct (idxmax_spec (map (fun r => (fst r, film_count r)) t))
    as (label & pre & v & post & Eidx & Es & Hpre & Hpost).
  { intros E. apply map_eq_nil in E. rewrite E in Ht. simpl in Ht. congruence. }
  apply map_eq_app in Es as (tpre & trest & Et & Epre & Erest).
  apply map_eq_cons in Erest as ([l [y c]] & tpost & Etr & Erow & Epost).
  unfold film_count in Erow. simpl in Erow. injection Erow as -> ->.
  subst trest pre post.
  assert (Hg : g = rows_of tpre ++ (y, v) :: rows_of tpost).
  { rewrite <- Ht, Et. unfold rows_of. now rewrite map_app. }
  exists y, v. rewrite Eidx. simpl. split; [|split].
  - apply loc_found; [exact Hnd|]. rewrite Et. apply in_or_app. right. now left.
  - rewrite Hg. apply in_or_app. right. now left.
  - intros y' c' Hin. rewrite Hg in Hin. apply in_app_or in Hin as [Hin|[E|Hin]].
    + apply in_map_iff in Hin as (row & Er & Hrow).
      rewrite Forall_map, Forall_forall in Hpre. specialize (Hpre _ Hrow).
      simpl in Hpre. unfold film_count in Hpre. rewrite Er in Hpre. simpl in Hpre.
      lia.
    + injection E as <- <-. lia.
    + split.
      * apply in_map_iff in Hin as (row & Er & Hrow).
        rewrite Forall_map, Forall_forall in Hpost. specialize (Hpost _ Hrow).
        simpl in Hpost. unfold film_count in Hpost. rewrite Er in Hpost. exact Hpost.
      * intros _. unfold keys_ascending in Hasc. rewrite Hg, map_app in Hasc.
        simpl in Hasc. apply StronglySorted_app_cons in Hasc.
        rewrite Forall_forall in Hasc. apply Z_klt_le, Hasc.
        change y' with (fst (y', c')). now apply in_map.
Qed.

(** C5. Over a non-empty set of rows kept by a year range, [peak_year]
    returns a row of [yearly_counts] with the largest count and, among
    the years with that count, the smallest year; three films of the
    years 1995, 1995 and 2000 give (1995, 2). *)
Theorem peak_year_largest_count_smallest_year (df : frame) (range : Z * Z) :
  df_filtered range df <> [] ->
  (exists y c,
      peak_year (df_filtered range df) = Ok (y, c) /\
      In (y, c) (rows_of (yearly_counts (df_filtered range df))) /\
      forall y' c',
        In (y', c') (rows_of (yearly_counts (df_filtered range df))) ->
        (c' <= c)%nat /\ (c' = c -> y <= y')) /\
  (forall a b c : film,
      year a = Some 1995 -> year b = Some 1995 -> year c = Some 2000 ->
      peak_year [a; b; c] = Ok (1995, 2%nat)).
Proof.
  intros Hne. split.
  - unfold peak_year. rewrite yearly_counts_rows, yearly_counts_reset_index.
    apply peak_of_count_table; [|apply groupby_size_ascending].
    intros E. apply Hne. apply length_zero_iff_nil.
    now rewrite <- filtered_year_groups_total, E.
  - intros a b c Ha Hb Hc.
    unfold peak_year, yearly_counts, col. simpl. now rewrite Ha, Hb, Hc.
Qed.

Lemma peak_year_largest_count_smallest_year_witness :
  exists y c,
    peak_year
      (df_filtered (1990, 2000)
         [ sample (Some "Cemeng 2005") (Some 1995) ["Drama"] None;
           sample (Some "Telegram") (Some 2000) ["Drama"] None;
           sample (Some "Bulan Tertusuk Ilalang") (Some 1995) ["Drama"] None;
           sample (Some "Tiga Dara") (Some 1956) ["Comedy"] None ])
    = Ok (y, c) /\ y = 1995 /\ c = 2%nat.
Proof.
  destruct (proj1 (peak_year_largest_count_smallest_year
    [ sample (Some "Cemeng 2005") (Some 1995) ["Drama"] None;
      sample (Some "Telegram") (Some 2000) ["Drama"] None;
      sample (Some "Bulan Tertusuk Ilalang") (Some 1995) ["Drama"] None;
      sample (Some "Tiga Dara") (Some 1956) ["Comedy"] None ]
    (1990, 2000) ltac:(discriminate))) as (y & c & E & _).
  exists y, c. split; [exact E|].
  vm_compute in E. injection E as <- <-. split; reflexivity.
Defined.

(** ** Rating distribution *)

(** C7 (as amended). [rating_dist] has one row per distinct rating of the
    frame, each with the number of rows that carry the rating, and its
    rows stand in ascending order of the rating label. *)
Theorem rating_dist_one_row_per_rating_by_label (dff : frame) :
  keys_ascending (rows_of (rating_dist dff)) /\
  NoDup (map fst (rows_of (rating_dist dff))) /\
  (forall k, In k (map fst (rows_of (rating_dist dff))) <->
             In (Some k) (col rating_clean dff)) /\
  (forall k n, In (k, n) (rows_of (rating_dist dff)) ->
               n = occurrences k (col rating_clean dff)).
Proof.
  unfold rating_dist. rewrite rows_of_reset_index.
  split; [|split; [|split]].
  - apply groupby_size_ascending.
  - apply ascending_NoDup, groupby_size_ascending.
  - intros k. apply groupby_size_keys.
  - intros k n Hin. now apply groupby_size_rows in Hin.
Qed.

(** C7 as stated fails: with the ratings R and PG in that order, the
    table lists PG before R. *)
Lemma rating_dist_not_in_encounter_order :
  ~ rating_dist_as_specified
      [ sample (Some "Daun di Atas Bantal") (Some 1998) ["Drama"] (Some "R");
        sample (Some "Petualangan Sherina") (Some 2000) ["Musical"] (Some "PG") ].
Proof.
  intros [Horder _]. vm_compute in Horder. discriminate.
Qed.

(** ** Genre counts *)

Lemma rows_of_insert_sorted {K : Type} (by_col : K * nat -> Z)
    (x : count_row K) (t : list (count_row K)) :
  rows_of (insert_sorted (fun r => by_col (snd r)) x t) =
  insert_sorted by_col (snd x) (rows_of t).
Proof.
  unfold rows_of. induction t as [|y t IH]; simpl; [reflexivity|].
  destruct (by_col (snd x) <=? by_col (snd y)); simpl; [reflexivity|].
  now rewrite IH.
Qed.

Lemma rows_of_stable_sort {K : Type} (by_col : K * nat -> Z)
    (t : list (count_row K)) :
  rows_of (stable_sort (fun r => by_col (snd r)) t) =
  stable_sort by_col (rows_of t).
Proof.
  induction t as [|x t IH]; simpl; [reflexivity|].
  now rewrite rows_of_insert_sorted, IH.
Qed.

Lemma rows_of_sort_values {K : Type} (by_col : K * nat -> Z) (asc : bool)
    (t : list (count_row K)) :
  rows_of (sort_values (fun r => by_col (snd r)) asc t) =
  sort_values by_col asc (rows_of t).
Proof.
  destruct asc; simpl; [apply rows_of_stable_sort|].
  unfold rows_of. rewrite map_rev. f_equal. rewrite <- map_rev.
  exact (rows_of_stable_sort by_col (rev t)).
Qed.

Lemma genre_table_rows (dff : frame) :
  rows_of (genre_table dff) =
  sort_values (fun p => Z.of_nat (snd p)) false
    (groupby_size (explode (col genre_list dff))).
Proof.
  unfold genre_table.
  etransitivity;
    [exact (rows_of_sort_values (fun p => Z.of_nat (snd p)) false _)|].
  now rewrite rows_of_reset_index.
Qed.

Lemma occurrences_listed (g : string) (l : list string)
    (rest : list (option string)) :
  occurrences g (map Some l ++ rest) =
  (count_occ string_dec l g + occurrences g rest)%nat.
Proof.
  induction l as [|a l IH]; simpl; [reflexivity|].
  destruct (string_dec a g) as [->|Hne].
  - rewrite kcmp_refl, IH. reflexivity.
  - destruct (kcmp g a) eqn:E; try exact IH.
    apply kcmp_eq in E. congruence.
Qed.

(** A row that names a genre k times adds k to the group of that genre. *)
Lemma occurrences_explode (g : string) (dff : frame) :
  occurrences g (explode (col genre_list dff)) = genre_mentions g dff.
Proof.
  unfold genre_mentions, col.
  induction dff as [|r dff IH]; [reflexivity|].
  cbn [map explode flat_map list_sum fold_right].
  fold (explode (map genre_list dff)).
  fold (list_sum (map (fun r => match genre_list r with
                                | Some l => count_occ string_dec l g
                                | None => 0%nat
                                end) dff)).
  rewrite <- IH. destruct (genre_list r) as [[|a l]|].
  - reflexivity.
  - exact (occurrences_listed g (a :: l) _).
  - reflexivity.
Qed.



(** ** The registry explorer *)

Lemma select_by_predicate {R : Type} (f : R -> bool) (df : list R) :
  select df (map f df) = filter f df.
Proof.
  unfold select. induction df as [|r df IH]; simpl; [reflexivity|].
  destruct (f r); simpl; now rewrite IH.
Qed.









(** ** An empty selection *)

Lemma empty_selection_tables_and_rates :
  total_films [] = 0%nat /\ unclassified [] = 0%nat /\
  missing_runtime [] = 0%nat /\
  unclassified_rate [] = 0%Q /\ missing_runtime_rate [] = 0%Q /\
  avg_runtime [] = None /\ long_films [] = 0%nat /\
  yearly_counts [] = [] /\ genre_counts [] = [] /\ rating_dist [] = [].
Proof. repeat split. Qed.

Lemma empty_selection_summary_raises :
  peak_year [] = Raise ValueError /\ genre_leader [] = Raise IndexError.
Proof. split; reflexivity. Qed.

(** C1 (the code departs from it). Years 1950 and 2000 with the slider
    at 1960 to 1970: no row is kept; the total, the rates and the tables
    are zero, absent or empty, and [peak_year] raises. *)
Theorem peak_year_raises_on_empty_selection :
  let dff :=
    df_filtered (1960, 1970)
      [ sample (Some "Darah dan Doa") (Some 1950) ["Drama"; "War"] None;
        sample (Some "Petualangan Sherina") (Some 2000) ["Musical"] (Some "SU") ] in
  dff = [] /\
  total_films dff = 0%nat /\
  unclassified_rate dff = 0%Q /\ missing_runtime_rate dff = 0%Q /\
  avg_runtime dff = None /\
  yearly_counts dff = [] /\ genre_counts dff = [] /\ rating_dist dff = [] /\
  peak_year dff = Raise ValueError.
Proof. repeat split. Qed.

(** * Further properties of the pipeline *)

(** ** Filtering again *)

Lemma filter_twice {A : Type} (f g : A -> bool) (l : list A) :
  filter f (filter g l) = filter (fun x => g x && f x) l.
Proof.
  induction l as [|a l IH]; simpl; [reflexivity|].
  destruct (g a); simpl; [destruct (f a)|]; now rewrite IH.
Qed.

Lemma in_year_range_both (lo1 hi1 lo2 hi2 : Z) (r : film) :
  in_year_range lo1 hi1 r && in_year_range lo2 hi2 r =
  in_year_range (Z.max lo1 lo2) (Z.min hi1 hi2) r.
Proof.
  unfold in_year_range. destruct (year r) as [y|]; [|reflexivity].
  apply eq_true_iff_eq.
  rewrite !andb_true_iff, !Z.leb_le. lia.
Qed.

(** X1. Filtering a filtered frame by a second range is filtering the
    original frame by the overlap of the two ranges; with the same range
    it changes nothing. *)
Theorem df_filtered_twice_is_overlap (df : frame) (lo1 hi1 lo2 hi2 : Z) :
  df_filtered (lo2, hi2) (df_filtered (lo1, hi1) df) =
  df_filtered (Z.max lo1 lo2, Z.min hi1 hi2) df /\
  df_filtered (lo1, hi1) (df_filtered (lo1, hi1) df) = df_filtered (lo1, hi1) df.
Proof.
  rewrite !df_filtered_filter, !filter_twice. split.
  - apply filter_ext. intros r. apply in_year_range_both.
  - apply filter_ext. intros r. now destruct (in_year_range lo1 hi1 r).
Qed.

(** ** The bounds of the slider, when there are years *)













(** ** The KPI tiles *)

Lemma mask_sum_of_test {R : Type} (f : R -> bool) (df : list R) :
  mask_sum (map f df) = count_where f df.
Proof.
  unfold mask_sum, count_where.
  induction df as [|r df IH]; simpl; [reflexivity|].
  destruct (f r); simpl; now rewrite IH.
Qed.

Lemma count_where_le {R : Type} (f : R -> bool) (df : list R) :
  (count_where f df <= List.length df)%nat.
Proof. apply filter_length_le. Qed.

Lemma unclassified_as_count (dff : frame) :
  unclassified dff = count_where (has_rating "Unclassified") dff.
Proof.
  unfold unclassified, eq_scalar, col. rewrite map_map.
  exact (mask_sum_of_test (has_rating "Unclassified") dff).
Qed.

Lemma missing_runtime_as_count (dff : frame) :
  missing_runtime dff =
  count_where (fun r => match runtime_min r with Some _ => false | None => true end) dff.
Proof.
  unfold missing_runtime, isna, col. rewrite map_map.
  apply mask_sum_of_test.
Qed.

Lemma long_films_as_count (dff : frame) :
  long_films dff =
  count_where (fun r => match runtime_min r with Some m => 150 <? m | None => false end) dff.
Proof.
  unfold long_films, gt_scalar, col. rewrite map_map.
  apply mask_sum_of_test.
Qed.

Lemma counters_within_total_aux (dff : frame) :
  (unclassified dff <= total_films dff)%nat /\
  (missing_runtime dff <= total_films dff)%nat.
Proof.
  split.
  - rewrite unclassified_as_count. apply count_where_le.
  - rewrite missing_runtime_as_count. apply count_where_le.
Qed.

(** X5. The counters of the tiles never exceed the total: not the
    unclassified films, and not the films without a runtime together
    with the films over 150 minutes, which are never the same film. *)
Theorem counters_within_total (dff : frame) :
  (unclassified dff <= total_films dff)%nat /\
  (missing_runtime dff + long_films dff <= total_films dff)%nat.
Proof.
  split.
  - rewrite unclassified_as_count. apply count_where_le.
  - rewrite missing_runtime_as_count, long_films_as_count.
    unfold total_films, count_where.
    induction dff as [|r dff IH]; simpl; [lia|].
    destruct (runtime_min r) as [m|]; [destruct (150 <? m)|]; simpl; lia.
Qed.

Lemma percent_of_bounds (part total : nat) :
  (part <= total)%nat ->
  (0 <= percent_of part total)%Q /\ (percent_of part total <= 100)%Q.
Proof.
  intros Hle. destruct total as [|n]; simpl.
  - split; [apply Qle_refl | discriminate].
  - unfold Qle, Qdiv, Qmult, Qinv, inject_Z. simpl.
    rewrite Pos.mul_1_r. split; [lia|].
    assert (Hp : Z.of_nat part <= Z.pos (Pos.of_succ_nat n)) by lia.
    nia.
Qed.

(** X6. The two rates of the tiles are percentages: they lie between 0
    and 100, whatever the frame. *)
Theorem rates_are_percentages (dff : frame) :
  (0 <= unclassified_rate dff)%Q /\ (unclassified_rate dff <= 100)%Q /\
  (0 <= missing_runtime_rate dff)%Q /\ (missing_runtime_rate dff <= 100)%Q.
Proof.
  destruct (counters_within_total_aux dff) as [Hu Hm].
  destruct (percent_of_bounds _ _ Hu) as [H1 H2].
  destruct (percent_of_bounds _ _ Hm) as [H3 H4].
  unfold unclassified_rate, missing_runtime_rate. auto.
Qed.

Lemma dropna_nil_iff {A : Type} (s : list (option A)) :
  dropna s = [] <-> Forall (fun x => x = None) s.
Proof.
  split; [|apply dropna_all_nan].
  induction s as [|[a|] s IH]; simpl; intros E.
  - constructor.
  - discriminate.
  - constructor; auto.
Qed.

Lemma isna_all_iff {A : Type} (s : list (option A)) :
  mask_sum (isna s) = List.length s <-> Forall (fun x => x = None) s.
Proof.
  unfold isna. rewrite mask_sum_of_test. unfold count_where.
  induction s as [|[a|] s IH]; simpl.
  - split; [constructor | reflexivity].
  - split.
    + intros E.
      pose proof (filter_length_le
                    (fun x : option A => match x with Some _ => false | None => true end) s).
      lia.
    + intros Hall. inversion Hall; discriminate.
  - rewrite Nat.succ_inj_wd, IH. split.
    + now constructor.
    + intros Hall. now inversion Hall.
Qed.

(** X7. The average runtime is absent exactly when every film of the
    frame lacks a runtime, the empty frame included; otherwise it is a
    number. *)
Theorem avg_runtime_absent_iff_all_missing (dff : frame) :
  avg_runtime dff = None <-> missing_runtime dff = total_films dff.
Proof.
  unfold avg_runtime, missing_runtime, total_films, series_mean.
  rewrite <- (length_map runtime_min dff). unfold col.
  rewrite isna_all_iff, <- dropna_nil_iff.
  destruct (dropna (map runtime_min dff)); split; congruence.
Qed.

(** ** Tables and tiles agree *)

Lemma occurrences_as_count {K R : Type} `{KeyLaws K} (k : K)
    (f : R -> option K) (test : R -> bool) (df : list R) :
  (forall r, test r = true <-> f r = Some k) ->
  occurrences k (map f df) = count_where test df.
Proof.
  intros Htest. unfold count_where.
  induction df as [|r df IH]; simpl; [reflexivity|].
  destruct (f r) as [a|] eqn:Ef.
  - destruct (kcmp k a) eqn:Ek.
    + apply kcmp_eq in Ek. subst a.
      rewrite (proj2 (Htest r) Ef). simpl. now rewrite IH.
    + destruct (test r) eqn:Et; [|exact IH].
      apply Htest in Et. rewrite Ef in Et. injection Et as ->.
      rewrite kcmp_refl in Ek. discriminate.
    + destruct (test r) eqn:Et; [|exact IH].
      apply Htest in Et. rewrite Ef in Et. injection Et as ->.
      rewrite kcmp_refl in Ek. discriminate.
  - destruct (test r) eqn:Et; [|exact IH].
    apply Htest in Et. rewrite Ef in Et. discriminate.
Qed.

Lemma has_rating_spec (k : string) (r : film) :
  has_rating k r = true <-> rating_clean r = Some k.
Proof.
  unfold has_rating. destruct (rating_clean r) as [a|].
  - rewrite String.eqb_eq. split; congruence.
  - split; discriminate.
Qed.

Lemma in_year_spec (y : Z) (r : film) :
  in_year y r = true <-> year r = Some y.
Proof.
  unfold in_year. destruct (year r) as [a|].
  - rewrite Z.eqb_eq. split; congruence.
  - split; discriminate.
Qed.

(** X8. The treemap and the tile agree: the count that [rating_dist] holds
    for a rating is the number of films with that rating, zero when the
    table has no such row, and for ["Unclassified"] it is the number of
    the Unclassified tile. *)
Theorem rating_dist_agrees_with_tile (dff : frame) :
  (forall k, lookup_count k (rows_of (rating_dist dff)) =
             count_where (has_rating k) dff) /\
  lookup_count "Unclassified" (rows_of (rating_dist dff)) = unclassified dff.
Proof.
  assert (Hk : forall k, lookup_count k (rows_of (rating_dist dff)) =
                         count_where (has_rating k) dff).
  { intros k. unfold rating_dist. rewrite rows_of_reset_index.
    rewrite lookup_count_groupby. apply occurrences_as_count.
    intros r. apply has_rating_spec. }
  split; [exact Hk|]. now rewrite Hk, unclassified_as_count.
Qed.

(** X9. Over the rows kept by a year range, [yearly_counts] has its years
    in strictly ascending order, all of them within the range, a row for
    a year exactly when some kept film is of that year, and as its count
    the number of the kept films of that year. *)
Theorem yearly_counts_rows_by_year (df : frame) (lo hi : Z) :
  keys_ascending (rows_of (yearly_counts (df_filtered (lo, hi) df))) /\
  (forall y n,
      In (y, n) (rows_of (yearly_counts (df_filtered (lo, hi) df))) <->
      n = count_where (in_year y) (df_filtered (lo, hi) df) /\ (0 < n)%nat) /\
  (forall y n,
      In (y, n) (rows_of (yearly_counts (df_filtered (lo, hi) df))) ->
      lo <= y <= hi).
Proof.
  rewrite yearly_counts_rows.
  assert (Hrows : forall y n,
             In (y, n) (groupby_size (col year (df_filtered (lo, hi) df))) <->
             n = count_where (in_year y) (df_filtered (lo, hi) df) /\ (0 < n)%nat).
  { intros y n. rewrite groupby_size_rows. unfold col.
    rewrite (occurrences_as_count y year (in_year y)); [reflexivity|].
    intros r. apply in_year_spec. }
  split; [apply groupby_size_ascending|]. split; [exact Hrows|].
  intros y n Hin.
  assert (Hkey : In (Some y) (col year (df_filtered (lo, hi) df))).
  { apply groupby_size_keys. change y with (fst (y, n)). now apply in_map. }
  unfold col in Hkey. apply in_map_iff in Hkey as (r & Ey & Hr).
  rewrite df_filtered_filter in Hr. apply filter_In in Hr as [_ Hr].
  apply in_year_range_spec in Hr as (y' & Ey' & Hrange). congruence.
Qed.

(** ** The executive summary *)

Lemma year_groups_empty_iff (dff : frame) :
  groupby_size (col year dff) = [] <-> forall r, In r dff -> year r = None.
Proof.
  split.
  - intros E r Hr. destruct (year r) as [y|] eqn:Ey; [|reflexivity].
    assert (Hin : In y (map fst (groupby_size (col year dff)))).
    { apply groupby_size_keys. unfold col. rewrite <- Ey. now apply in_map. }
    rewrite E in Hin. contradiction.
  - intros Hall. destruct (groupby_size (col year dff)) as [|[y n] t] eqn:E;
      [reflexivity|]. exfalso.
    assert (Hin : In y (map fst (groupby_size (col year dff)))).
    { rewrite E. now left. }
    apply groupby_size_keys in Hin. unfold col in Hin.
    apply in_map_iff in Hin as (r & Ey & Hr). rewrite (Hall r Hr) in Ey.
    discriminate.
Qed.

(** X10. [peak_year] raises exactly when no film of the frame has a year,
    and then it is the [ValueError] of [idxmax]; the label that [idxmax]
    returns is always found by [loc]. *)
Theorem peak_year_raises_iff_no_year (dff : frame) :
  (peak_year dff = Raise ValueError <-> forall r, In r dff -> year r = None) /\
  (forall e, peak_year dff = Raise e -> e = ValueError).
Proof.
  unfold peak_year. rewrite yearly_counts_reset_index.
  destruct (groupby_size (col year dff)) as [|p t] eqn:E.
  - pose proof (proj1 (year_groups_empty_iff dff) E) as Hnone. simpl. split.
    + split; auto.
    + intros e He. congruence.
  - destruct (peak_of_count_table (p :: t)) as (y & c & Ep & _).
    { discriminate. }
    { rewrite <- E. apply groupby_size_ascending. }
    rewrite Ep. split.
    + split; [discriminate|]. intros Hall.
      pose proof (proj2 (year_groups_empty_iff dff) Hall) as Hnil. congruence.
    + discriminate.
Qed.


Lemma genre_table_rows_spec (dff : frame) (g : string) (n : nat) :
  In (g, n) (rows_of (genre_table dff)) <->
  n = genre_mentions g dff /\ (0 < n)%nat.
Proof.
  rewrite genre_table_rows, sort_values_In, groupby_size_rows.
  now rewrite occurrences_explode.
Qed.

Lemma genre_leader_first_row (dff : frame) :
  genre_leader dff =
  match rows_of (genre_table dff) with
  | [] => Raise IndexError
  | p :: _ => Ok p
  end.
Proof.
  unfold genre_leader, rows_of. destruct (genre_table dff); reflexivity.
Qed.



Lemma loaded_rows_name_a_genre
    (to_numeric : option string -> option Z) (csv : list csv_row) (r : film) :
  In r (load_and_clean_data to_numeric csv) -> (1 <= genres_named r)%nat.
Proof.
  unfold load_and_clean_data. intros Hin.
  apply in_map_iff in Hin as (raw & <- & _).
  unfold genres_named. simpl.
  destruct (csv_genre raw); [apply split_comma_space_nonempty | simpl; lia].
Qed.

Lemma loaded_rows_decade
    (to_numeric : option string -> option Z) (csv : list csv_row) (r : film) :
  In r (load_and_clean_data to_numeric csv) -> decade r = floor_decade (year r).
Proof.
  unfold load_and_clean_data. intros Hin.
  apply in_map_iff in Hin as (raw & <- & _). reflexivity.
Qed.

Lemma loaded_rows_rating
    (to_numeric : option string -> option Z) (csv : list csv_row) (r : film) :
  In r (load_and_clean_data to_numeric csv) -> rating_clean r <> None.
Proof.
  unfold load_and_clean_data. intros Hin.
  apply in_map_iff in Hin as (raw & <- & _). simpl.
  destruct (csv_rating raw); discriminate.
Qed.

Lemma df_filtered_In (range : Z * Z) (df : frame) (r : film) :
  In r (df_filtered range df) -> In r df /\ year r <> None.
Proof.
  destruct range as [lo hi]. rewrite df_filtered_filter. intros Hin.
  apply filter_In in Hin as [Hr Hy]. split; [exact Hr|].
  apply in_year_range_spec in Hy as (y & E & _). congruence.
Qed.

Lemma genre_mentions_positive (dff : frame) (r : film) (l : list string) (g : string) :
  In r dff -> genre_list r = Some l -> In g l ->
  (0 < genre_mentions g dff)%nat.
Proof.
  unfold genre_mentions. intros Hr El Hg.
  induction dff as [|r0 dff IH]; simpl; [contradiction|].
  destruct Hr as [->|Hr].
  - rewrite El. apply (count_occ_In string_dec) in Hg. lia.
  - specialize (IH Hr). lia.
Qed.

(** X12. On a frame that was loaded and then filtered by a year range,
    the two figures of the executive summary are returned whenever the
    range keeps at least one film; when it keeps none, [peak_year] raises
    [ValueError] and [genre_leader] raises [IndexError]. *)
Theorem summary_defined_iff_selection_nonempty
    (to_numeric : option string -> option Z) (csv : list csv_row) (range : Z * Z) :
  (df_filtered range (load_and_clean_data to_numeric csv) <> [] ->
   (exists p, peak_year (df_filtered range (load_and_clean_data to_numeric csv)) = Ok p) /\
   (exists g, genre_leader (df_filtered range (load_and_clean_data to_numeric csv)) = Ok g)) /\
  (df_filtered range (load_and_clean_data to_numeric csv) = [] ->
   peak_year (df_filtered range (load_and_clean_data to_numeric csv)) = Raise ValueError /\
   genre_leader (df_filtered range (load_and_clean_data to_numeric csv)) = Raise IndexError).
Proof.
  set (dff := df_filtered range (load_and_clean_data to_numeric csv)).
  split.
  - intros Hne. destruct dff as [|r rest] eqn:E; [congruence|].
    assert (Hr : In r dff) by (rewrite E; now left).
    unfold dff in Hr. apply df_filtered_In in Hr as [Hload Hyear].
    rewrite <- E. split.
    + unfold peak_year. rewrite yearly_counts_reset_index.
      destruct (peak_of_count_table (groupby_size (col year dff)))
        as (y & c & Ep & _).
      * intros Hnil. pose proof (proj1 (year_groups_empty_iff dff) Hnil) as Hnone.
        apply Hyear, Hnone. rewrite E. now left.
      * apply groupby_size_ascending.
      * rewrite Ep. eauto.
    + rewrite genre_leader_first_row.
      destruct (rows_of (genre_table dff)) as [|p t] eqn:Et; [|eauto].
      exfalso. pose proof (loaded_rows_name_a_genre _ _ _ Hload) as Hg.
      unfold genres_named in Hg.
      destruct (genre_list r) as [[|a l]|] eqn:El; simpl in Hg; try lia.
      assert (Hpos : (0 < genre_mentions a dff)%nat).
      { apply (genre_mentions_positive dff r (a :: l)); auto.
        - rewrite E. now left.
        - now left. }
      assert (Hin : In (a, genre_mentions a dff) (rows_of (genre_table dff))).
      { apply genre_table_rows_spec. auto. }
      rewrite Et in Hin. contradiction.
  - intros ->. split; reflexivity.
Qed.

Lemma summary_defined_iff_selection_nonempty_witness :
  exists p g,
    peak_year
      (df_filtered (1900, 2100)
         (load_and_clean_data decimal_year
            [ {| csv_title := Some "Tiga Dara"; csv_year := Some "1956";
                 csv_runtime := Some "115 min"; csv_genre := None;
                 csv_rating := None |} ])) = Ok p /\
    genre_leader
      (df_filtered (1900, 2100)
         (load_and_clean_data decimal_year
            [ {| csv_title := Some "Tiga Dara"; csv_year := Some "1956";
                 csv_runtime := Some "115 min"; csv_genre := None;
                 csv_rating := None |} ])) = Ok g.
Proof.
  destruct (proj1 (summary_defined_iff_selection_nonempty decimal_year
    [ {| csv_title := Some "Tiga Dara"; csv_year := Some "1956";
         csv_runtime := Some "115 min"; csv_genre := None;
         csv_rating := None |} ] (1900, 2100)) ltac:(discriminate))
    as [[p Hp] [g Hg]].
  exists p, g. split; assumption.
Defined.

(** ** The genre table as a whole *)

Lemma list_sum_insert_sorted {R : Type} (by_col : R -> Z) (f : R -> nat)
    (x : R) (l : list R) :
  list_sum (map f (insert_sorted by_col x l)) = (f x + list_sum (map f l))%nat.
Proof.
  induction l as [|y t IH]; simpl; [reflexivity|].
  destruct (by_col x <=? by_col y); simpl; [reflexivity|].
  rewrite IH. lia.
Qed.

Lemma list_sum_stable_sort {R : Type} (by_col : R -> Z) (f : R -> nat)
    (l : list R) :
  list_sum (map f (stable_sort by_col l)) = list_sum (map f l).
Proof.
  induction l as [|x t IH]; simpl; [reflexivity|].
  now rewrite list_sum_insert_sorted, IH.
Qed.

Lemma list_sum_rev (l : list nat) : list_sum (rev l) = list_sum l.
Proof.
  induction l as [|a l IH]; simpl; [reflexivity|].
  rewrite list_sum_app, IH. simpl. lia.
Qed.

Lemma list_sum_sort_values {R : Type} (by_col : R -> Z) (f : R -> nat)
    (asc : bool) (l : list R) :
  list_sum (map f (sort_values by_col asc l)) = list_sum (map f l).
Proof.
  destruct asc; simpl; [apply list_sum_stable_sort|].
  now rewrite map_rev, list_sum_rev, list_sum_stable_sort, map_rev, list_sum_rev.
Qed.

Lemma exploded_length (dff : frame) :
  List.length (dropna (explode (col genre_list dff))) =
  list_sum (map genres_named dff).
Proof.
  unfold col, genres_named.
  induction dff as [|r dff IH]; [reflexivity|].
  cbn [map explode flat_map list_sum fold_right].
  fold (explode (map genre_list dff)).
  fold (list_sum (map (fun r => match genre_list r with
                                | Some l => List.length l
                                | None => 0%nat
                                end) dff)).
  rewrite <- IH. unfold dropna. rewrite flat_map_app.
  rewrite length_app. f_equal.
  destruct (genre_list r) as [[|a l]|]; simpl; [reflexivity| |reflexivity].
  f_equal. induction l as [|b l IHl]; simpl; [reflexivity|]. now rewrite IHl.
Qed.

(** X13. The counts of the genre table add up to the number of genre
    mentions of the frame, a film with k genres counting k times; so
    when every film names a genre, as after loading, they add up to at
    least the number of films. *)
Theorem genre_table_total_is_mentions (dff : frame) :
  list_sum (map film_count (genre_table dff)) = list_sum (map genres_named dff) /\
  ((forall r, In r dff -> (1 <= genres_named r)%nat) ->
   (total_films dff <= list_sum (map film_count (genre_table dff)))%nat).
Proof.
  assert (Hsum : list_sum (map film_count (genre_table dff)) =
                 list_sum (map genres_named dff)).
  { rewrite count_row_counts, genre_table_rows, list_sum_sort_values.
    rewrite groupby_size_total. apply exploded_length. }
  split; [exact Hsum|]. rewrite Hsum. unfold total_films. clear Hsum.
  intros Hall. induction dff as [|r dff IH]; simpl; [lia|].
  assert (H1 : (1 <= genres_named r)%nat) by (apply Hall; now left).
  assert (H2 : (List.length dff <= list_sum (map genres_named dff))%nat).
  { apply IH. intros r' Hr'. apply Hall. now right. }
  lia.
Qed.

Lemma genre_table_total_is_mentions_witness :
  Nat.le
    (total_films
       [ sample (Some "Ada Apa dengan Cinta?") (Some 2002) ["Drama"; "Romance"] None;
         sample (Some "Laskar Pelangi") (Some 2008) ["Drama"] None ])
    (list_sum
       (map film_count
          (genre_table
             [ sample (Some "Ada Apa dengan Cinta?") (Some 2002) ["Drama"; "Romance"] None;
               sample (Some "Laskar Pelangi") (Some 2008) ["Drama"] None ]))).
Proof.
  apply (proj2 (genre_table_total_is_mentions
    [ sample (Some "Ada Apa dengan Cinta?") (Some 2002) ["Drama"; "Romance"] None;
      sample (Some "Laskar Pelangi") (Some 2008) ["Drama"] None ])).
  intros r [<- | [<- | []]]; unfold genres_named; simpl; lia.
Defined.

(** ** Ratings across decades *)

Lemma kcmp_pair {A B : Type} `{Key A} `{Key B} (a1 a2 : A) (b1 b2 : B) :
  kcmp (a1, b1) (a2, b2) =
  match kcmp a1 a2 with
  | Eq => kcmp b1 b2
  | c => c
  end.
Proof. reflexivity. Qed.

#[export] Instance KeyLaws_pair {A B : Type} `{KeyLaws A} `{KeyLaws B} :
  KeyLaws (A * B).
Proof.
  split.
  - intros [a1 b1] [a2 b2]. rewrite kcmp_pair.
    destruct (kcmp a1 a2) eqn:Ea.
    + apply kcmp_eq in Ea. subst a2. rewrite kcmp_eq.
      split; [now intros -> | now intros [= ->]].
    + split; [discriminate|]. intros [= -> ->].
      rewrite kcmp_refl in Ea. discriminate.
    + split; [discriminate|]. intros [= -> ->].
      rewrite kcmp_refl in Ea. discriminate.
  - intros [a1 b1] [a2 b2]. rewrite !kcmp_pair.
    rewrite (kcmp_antisym a1 a2).
    destruct (kcmp a1 a2); simpl; [apply kcmp_antisym | reflexivity | reflexivity].
  - intros [a1 b1] [a2 b2] [a3 b3]. rewrite !kcmp_pair.
    destruct (kcmp a1 a2) eqn:E12; try discriminate;
      destruct (kcmp a2 a3) eqn:E23; try discriminate; intros Hb12 Hb23.
    + apply kcmp_eq in E12, E23. subst. rewrite kcmp_refl.
      exact (kcmp_trans _ _ _ Hb12 Hb23).
    + apply kcmp_eq in E12. subst. now rewrite E23.
    + apply kcmp_eq in E23. subst. now rewrite E12.
    + now rewrite (kcmp_trans _ _ _ E12 E23).
Qed.

Section SumWhere.

Context {K : Type} `{KeyLaws K}.

Lemma sum_where_bump (f : K -> bool) (k : K) (s : list (K * nat)) :
  sum_where f (bump k s) = ((if f k then 1 else 0) + sum_where f s)%nat.
Proof.
  unfold sum_where. induction s as [|[k' n] t IH]; simpl.
  - destruct (f k); reflexivity.
  - destruct (kcmp k k') eqn:E; simpl.
    + apply kcmp_eq in E. subst k'. destruct (f k); simpl; lia.
    + destruct (f k); simpl; destruct (f k'); simpl; lia.
    + destruct (f k'); simpl; rewrite IH; lia.
Qed.

Lemma sum_where_groupby (f : K -> bool) (keys : list (option K)) :
  sum_where f (groupby_size keys) = List.length (filter f (dropna keys)).
Proof.
  induction keys as [|[k|] t IH]; simpl; [reflexivity | | exact IH].
  rewrite sum_where_bump, IH. destruct (f k); reflexivity.
Qed.

End SumWhere.

Lemma selected_rows_have_keys
    (to_numeric : option string -> option Z) (csv : list csv_row)
    (range : Z * Z) (r : film) :
  In r (df_filtered range (load_and_clean_data to_numeric csv)) ->
  exists y a,
    year r = Some y /\ rating_clean r = Some a /\
    pair_key (decade r) (rating_clean r) = Some (y / 10 * 10, a).
Proof.
  intros Hin. apply df_filtered_In in Hin as [Hload Hy].
  pose proof (loaded_rows_decade _ _ _ Hload) as Hd.
  pose proof (loaded_rows_rating _ _ _ Hload) as Hr.
  destruct (year r) as [y|]; [|congruence].
  destruct (rating_clean r) as [a|]; [|congruence].
  exists y, a. rewrite Hd. auto.
Qed.

(** X14. On a frame that was loaded and then filtered by a year range,
    the table of ratings by decade has its rows in ascending order of
    decade and then rating, only decades that are multiples of ten,
    counts that add up to the number of films, and for each rating
    counts that add up over the decades to the count [rating_dist]
    holds for that rating. *)
Theorem rating_decade_refines_rating_dist
    (to_numeric : option string -> option Z) (csv : list csv_row) (range : Z * Z) :
  keys_ascending
    (rows_of (rating_decade (df_filtered range (load_and_clean_data to_numeric csv)))) /\
  (forall d a n,
      In ((d, a), n)
         (rows_of (rating_decade (df_filtered range (load_and_clean_data to_numeric csv)))) ->
      d mod 10 = 0) /\
  list_sum
    (map film_count
       (rating_decade (df_filtered range (load_and_clean_data to_numeric csv)))) =
  total_films (df_filtered range (load_and_clean_data to_numeric csv)) /\
  (forall a,
      sum_where (fun key => String.eqb (snd key) a)
        (rows_of (rating_decade (df_filtered range (load_and_clean_data to_numeric csv)))) =
      lookup_count a
        (rows_of (rating_dist (df_filtered range (load_and_clean_data to_numeric csv))))).
Proof.
  pose proof (selected_rows_have_keys to_numeric csv range) as Hkeys.
  set (dff := df_filtered range (load_and_clean_data to_numeric csv)) in *.
  unfold rating_decade. rewrite count_row_counts, !rows_of_reset_index.
  split; [apply groupby_size_ascending|]. split; [|split].
  - intros d a n Hin.
    assert (Hk : In (Some (d, a))
                    (map (fun r => pair_key (decade r) (rating_clean r)) dff)).
    { apply groupby_size_keys. change (d, a) with (fst ((d, a), n)).
      now apply in_map. }
    apply in_map_iff in Hk as (r & Ek & Hr).
    destruct (Hkeys r Hr) as (y & a' & _ & _ & Ek').
    rewrite Ek' in Ek. injection Ek as <- _. apply Z.mod_mul. lia.
  - rewrite groupby_size_total. unfold total_films.
    rewrite dropna_length; [apply length_map|].
    apply Forall_map, Forall_forall. intros r Hr.
    destruct (Hkeys r Hr) as (y & a & _ & _ & Ek). now rewrite Ek.
  - intros a. rewrite sum_where_groupby.
    unfold rating_dist. rewrite rows_of_reset_index, lookup_count_groupby.
    rewrite (occurrences_as_count a rating_clean (has_rating a));
      [|intros r; apply has_rating_spec].
    unfold count_where. clearbody dff.
    induction dff as [|r dff IH]; simpl; [reflexivity|].
    destruct (Hkeys r (or_introl eq_refl)) as (y & a' & _ & Ea & Ek).
    rewrite Ek. unfold has_rating at 1. rewrite Ea. simpl.
    assert (IH' : List.length
                    (filter (fun key : Z * string => String.eqb (snd key) a)
                       (dropna (map (fun r => pair_key (decade r) (rating_clean r)) dff))) =
                  List.length (filter (has_rating a) dff)).
    { apply IH. intros r' Hr'. apply Hkeys. now right. }
    destruct (String.eqb a' a); simpl; now rewrite IH'.
Qed.

(** ** More on the registry explorer *)

Lemma explorer_nonempty_query (c : ascii) (q : string) (dff shown : frame) :
  explorer (String c q) dff = Some shown ->
  exists p, Text.re_compile (String c q) = Some p /\
            shown = filter (fun r => match title r with
                                     | Some t => Text.re_search p t
                                     | None => false
                                     end) dff.
Proof.
  unfold explorer. destruct (Text.re_compile (String c q)) as [p|]; [|discriminate].
  intros E. injection E as <-. exists p. split; [reflexivity|].
  unfold str_contains, col. rewrite map_map. apply select_by_predicate.
Qed.

(** X15. What the explorer shows is always part of the filtered frame:
    with an empty search text at most 20 rows, its first ones; with
    any other text only rows of the frame that have a title. *)
Theorem explorer_shows_part_of_frame (search : string) (dff shown : frame) :
  explorer search dff = Some shown ->
  (forall r, In r shown -> In r dff) /\
  (List.length shown <= List.length dff)%nat /\
  (search = EmptyString -> (List.length shown <= 20)%nat) /\
  (search <> EmptyString -> forall r, In r shown -> title r <> None).
Proof.
  destruct search as [|c q].
  - intros E.
    assert (Es : firstn 20 dff = shown) by (unfold explorer, head in E; congruence).
    clear E. subst shown. split; [|split; [|split]].
    + intros r. apply firstn_In.
    + rewrite length_firstn. lia.
    + intros _. rewrite length_firstn. lia.
    + congruence.
  - intros E. apply explorer_nonempty_query in E as (p & _ & ->).
    split; [|split; [|split]].
    + intros r Hr. now apply filter_In in Hr.
    + apply filter_length_le.
    + discriminate.
    + intros _ r Hr. apply filter_In in Hr as [_ Ht].
      destruct (title r); [discriminate | discriminate].
Qed.

Lemma explorer_shows_part_of_frame_witness :
  Nat.le
    (List.length
       [ sample (Some "Laskar Pelangi") (Some 2008) ["Drama"] None ])
    (List.length
       [ sample (Some "Laskar Pelangi") (Some 2008) ["Drama"] None;
         sample None (Some 2003) ["Drama"] None ]).
Proof.
  apply (explorer_shows_part_of_frame "laskar"
    [ sample (Some "Laskar Pelangi") (Some 2008) ["Drama"] None;
      sample None (Some 2003) ["Drama"] None ]
    [ sample (Some "Laskar Pelangi") (Some 2008) ["Drama"] None ] eq_refl).
Defined.

Lemma lower_idempotent (c : ascii) : Text.lower (Text.lower c) = Text.lower c.
Proof. destruct c as [[] [] [] [] [] [] [] []]; reflexivity. Qed.

Lemma lower_keeps_meta (c : ascii) : Text.is_meta (Text.lower c) = Text.is_meta c.
Proof. destruct c as [[] [] [] [] [] [] [] []]; reflexivity. Qed.

Lemma lower_keeps_dot (c : ascii) :
  Ascii.eqb (Text.lower c) "." = Ascii.eqb c ".".
Proof. destruct c as [[] [] [] [] [] [] [] []]; reflexivity. Qed.

Lemma re_compile_lower (q : string) (p : list Text.atom) :
  Text.re_compile q = Some p ->
  exists p', Text.re_compile (Text.lower_str q) = Some p' /\
             forall t, Text.match_here p' t = Text.match_here p t.
Proof.
  revert p. induction q as [|c q IH]; simpl; intros p E.
  - injection E as <-. exists []. auto.
  - destruct (Text.re_compile q) as [p0|]; [|discriminate].
    destruct (IH p0 eq_refl) as (p0' & -> & Hp0).
    rewrite lower_keeps_dot, lower_keeps_meta.
    destruct (Ascii.eqb c ".").
    + injection E as <-. eexists. split; [reflexivity|].
      intros [|d t]; simpl; [reflexivity|]. now rewrite Hp0.
    + destruct (Text.is_meta c); [discriminate|].
      injection E as <-. eexists. split; [reflexivity|].
      intros [|d t]; simpl; [reflexivity|].
      now rewrite lower_idempotent, Hp0.
Qed.

Lemma re_search_ext (p p' : list Text.atom) :
  (forall t, Text.match_here p' t = Text.match_here p t) ->
  forall t, Text.re_search p' t = Text.re_search p t.
Proof.
  intros Hp t. induction t as [|d t IH]; simpl.
  - now rewrite (Hp EmptyString).
  - now rewrite (Hp (String d t)), IH.
Qed.

(** X16. The explorer ignores the case of the search text as it ignores
    the case of the titles: a search text of ordinary characters and
    dots shows the same rows when it is typed in lower case. *)
Theorem explorer_ignores_query_case (search : string) (dff shown : frame) :
  explorer search dff = Some shown ->
  explorer (Text.lower_str search) dff = Some shown.
Proof.
  destruct search as [|c q]; [auto|]. intros E.
  apply explorer_nonempty_query in E as (p & Ec & ->).
  destruct (re_compile_lower _ _ Ec) as (p' & Ec' & Hp).
  unfold explorer. cbn [Text.lower_str].
  change (String (Text.lower c) (Text.lower_str q))
    with (Text.lower_str (String c q)).
  rewrite Ec'. unfold str_contains, col.
  rewrite map_map, select_by_predicate. apply f_equal.
  apply filter_ext. intros r. destruct (title r) as [t|]; [|reflexivity].
  now apply re_search_ext.
Qed.

Lemma explorer_ignores_query_case_witness :
  explorer "laskar"
    [ sample (Some "Laskar Pelangi") (Some 2008) ["Drama"] None;
      sample (Some "Tiga Dara") (Some 1956) ["Comedy"] None ]
  = Some [ sample (Some "Laskar Pelangi") (Some 2008) ["Drama"] None ].
Proof.
  apply (explorer_ignores_query_case "LASKAR"
    [ sample (Some "Laskar Pelangi") (Some 2008) ["Drama"] None;
      sample (Some "Tiga Dara") (Some 1956) ["Comedy"] None ]
    [ sample (Some "Laskar Pelangi") (Some 2008) ["Drama"] None ] eq_refl).
Defined.

(** ** More on loading *)










Lemma concat_cons_char (sep : string) (c : ascii) (h : string) (r : list string) :
  String.concat sep (String c h :: r) = String c (String.concat sep (h :: r)).
Proof. destruct r; reflexivity. Qed.

Lemma split_join_two_steps (s : string) :
  String.concat ", " (Text.split_comma_space s) = s /\
  forall c, String.concat ", " (Text.split_comma_space (String c s)) = String c s.
Proof.
  induction s as [|d t [IH1 IH2]].
  - split; [reflexivity | intros c; reflexivity].
  - split; [apply IH2|]. intros c.
    assert (Hkeep : String.concat ", "
                      match Text.split_comma_space (String d t) with
                      | [] => [String c EmptyString]
                      | h :: r => String c h :: r
                      end = String c (String d t)).
    { pose proof (IH2 d) as Hd.
      destruct (Text.split_comma_space (String d t)) as [|h r].
      - simpl in Hd. discriminate.
      - now rewrite concat_cons_char, Hd. }
    change (Text.split_comma_space (String c (String d t)))
      with (if Ascii.eqb c "," && Ascii.eqb d " "
            then EmptyString :: Text.split_comma_space t
            else match Text.split_comma_space (String d t) with
                 | [] => [String c EmptyString]
                 | h :: r => String c h :: r
                 end).
    destruct (Ascii.eqb c "," && Ascii.eqb d " ") eqn:E; [|exact Hkeep].
    apply andb_true_iff in E as [Ec Ed].
    apply Ascii.eqb_eq in Ec, Ed. subst c d.
    pose proof (split_comma_space_nonempty t) as Hne.
    destruct (Text.split_comma_space t) as [|h r] eqn:Et; [simpl in Hne; lia|].
    change (String.concat ", " (EmptyString :: h :: r))
      with (", " ++ String.concat ", " (h :: r))%string.
    now rewrite IH1.
Qed.

(** X19. Splitting loses nothing: joining the genre list of a loaded film
    with the separator gives back its genre text, or ["Unknown"] for a
    film without one. *)
Theorem load_genre_list_joins_back
    (to_numeric : option string -> option Z) (raw : csv_row) :
  exists l,
    genre_list (clean_row to_numeric raw) = Some l /\
    String.concat ", " l =
    match csv_genre raw with
    | Some g => g
    | None => "Unknown"
    end.
Proof.
  simpl. destruct (csv_genre raw) as [g|]; simpl.
  - eexists. split; [reflexivity|]. apply split_join_two_steps.
  - eexists. split; reflexivity.
Qed.
